(** * Beam Spacing Calculator: geometry, unit formatting and diagram layout

    A shallow embedding of [src/App.jsx] (component [BeamSpacingCalculator])
    together with the properties its specification states about it.

    JavaScript has one numeric type, the IEEE-754 double.  It is embedded
    here as [number]: the three non-finite values are kept apart, so that
    [isFinite], NaN propagation and the comparisons that are false on NaN
    are the code's; a finite double is idealised as the real number it
    denotes, so that rounding error, overflow and the sign of zero are
    abstracted (the code never divides by a zero, so the sign of zero is not
    observable in it). *)

From Stdlib Require Import Reals Lra Lia ZArith Bool String Ascii List.
From Stdlib Require Import DecimalString.
Import ListNotations.

Local Open Scope R_scope.

(** ** JavaScript numbers *)

Inductive number : Type :=
| NaN
| PosInf
| NegInf
| Fin (x : R).

Declare Scope js_scope.
Delimit Scope js_scope with js.
Bind Scope js_scope with number.

Module Num.

Definition Rltb (x y : R) : bool := if Rlt_dec x y then true else false.
Definition Reqb (x y : R) : bool := if Req_dec_T x y then true else false.

(** The sign of a real, used by the products and quotients with an
    infinite operand. *)
Definition sgn (x : R) : comparison :=
  if Rlt_dec x 0 then Lt else if Rlt_dec 0 x then Gt else Eq.

Definition signed_inf (c : comparison) : number :=
  match c with Gt => PosInf | Lt => NegInf | Eq => NaN end.

Definition neg (a : number) : number :=
  match a with
  | NaN => NaN
  | PosInf => NegInf
  | NegInf => PosInf
  | Fin x => Fin (- x)
  end.

Definition add (a b : number) : number :=
  match a, b with
  | NaN, _ | _, NaN => NaN
  | PosInf, NegInf | NegInf, PosInf => NaN
  | PosInf, _ | _, PosInf => PosInf
  | NegInf, _ | _, NegInf => NegInf
  | Fin x, Fin y => Fin (x + y)
  end.

Definition sub (a b : number) : number := add a (neg b).

Definition mul (a b : number) : number :=
  match a, b with
  | NaN, _ | _, NaN => NaN
  | Fin x, Fin y => Fin (x * y)
  | PosInf, Fin y | Fin y, PosInf => signed_inf (sgn y)
  | NegInf, Fin y | Fin y, NegInf => signed_inf (CompOpp (sgn y))
  | PosInf, PosInf | NegInf, NegInf => PosInf
  | PosInf, NegInf | NegInf, PosInf => NegInf
  end.

(** A zero divisor is read as +0. *)
Definition div (a b : number) : number :=
  match a, b with
  | NaN, _ | _, NaN => NaN
  | Fin x, Fin y => if Reqb y 0 then signed_inf (sgn x) else Fin (x / y)
  | Fin _, (PosInf | NegInf) => Fin 0
  | PosInf, Fin y => if Rltb y 0 then NegInf else PosInf
  | NegInf, Fin y => if Rltb y 0 then PosInf else NegInf
  | (PosInf | NegInf), (PosInf | NegInf) => NaN
  end.

(** [a < b]; false as soon as an operand is NaN. *)
Definition lt (a b : number) : bool :=
  match a, b with
  | NaN, _ | _, NaN => false
  | Fin x, Fin y => Rltb x y
  | NegInf, (Fin _ | PosInf) => true
  | Fin _, PosInf => true
  | _, _ => false
  end.

Definition gt (a b : number) : bool := lt b a.

(** [a === b] on numbers. *)
Definition strict_eq (a b : number) : bool :=
  match a, b with
  | Fin x, Fin y => Reqb x y
  | PosInf, PosInf | NegInf, NegInf => true
  | _, _ => false
  end.

(** [a <= b]. *)
Definition le (a b : number) : bool := lt a b || strict_eq a b.
Definition ge (a b : number) : bool := le b a.

Definition isFinite (a : number) : bool :=
  match a with Fin _ => true | _ => false end.

End Num.

Infix "+" := Num.add : js_scope.
Infix "-" := Num.sub : js_scope.
Infix "*" := Num.mul : js_scope.
Infix "/" := Num.div : js_scope.
Infix "<?" := Num.lt (at level 70) : js_scope.
Infix ">?" := Num.gt (at level 70) : js_scope.
Infix "<=?" := Num.le (at level 70) : js_scope.
Infix ">=?" := Num.ge (at level 70) : js_scope.
Infix "===" := Num.strict_eq (at level 70) : js_scope.

(** A numeric literal of the program. *)
Notation "# x" := (Fin x%R) (at level 5, x at level 0, format "# x") : js_scope.

(** ** The [Math] object *)

Module Math.

Definition PI : number := Fin PI.

(** [Math.max]: NaN as soon as an argument is NaN. *)
Definition max (a b : number) : number :=
  match a, b with
  | NaN, _ | _, NaN => NaN
  | _, _ => if Num.lt a b then b else a
  end.

Definition min (a b : number) : number :=
  match a, b with
  | NaN, _ | _, NaN => NaN
  | _, _ => if Num.lt b a then b else a
  end.

Definition abs (a : number) : number :=
  match a with
  | NaN => NaN
  | PosInf | NegInf => PosInf
  | Fin x => Fin (Rabs x)
  end.

(** [Math.floor]: the greatest integer below the argument. *)
Definition floor (a : number) : number :=
  match a with
  | Fin x => Fin (IZR (Int_part x))
  | _ => a
  end.

(** [Math.round]: the nearest integer, a tie going towards +Infinity. *)
Definition round (a : number) : number :=
  match a with
  | Fin x => Fin (IZR (Int_part (x + / 2)))
  | _ => a
  end.

(** [Math.tan]: NaN on a non-finite argument.  No double is an odd
    multiple of a quarter turn, and [Math.tan] is finite on every finite
    double; at the poles of the real tangent, Rocq's [tan] has some real
    value, on which nothing below depends. *)
Definition tan (a : number) : number :=
  match a with
  | Fin x => Fin (Rtrigo1.tan x)
  | _ => NaN
  end.

End Math.

Local Open Scope js_scope.

(** ** Core math helpers *)

Definition clamp (v min max : number) : number :=
  Math.min (Math.max v min) max.

Definition toRadians (deg : number) : number := (deg * Math.PI) / #180.

(** The object that [computeAll] returns. *)
Record geometry : Type := mkGeometry {
  MH : number;
  thetaDeg : number;
  r : number;
  A_touch : number;
  A : number
}.

(** [computeAll({ C, D, B, angleMode = 'full', s = 1 })]: a property that is
    absent or [undefined] is [None] and takes its default. *)
Definition computeAll (C D B : number) (angleMode : option string)
    (s : option number) : geometry :=
  let angleMode := match angleMode with Some m => m | None => "full"%string end in
  let s := match s with Some s => s | None => #1 end in
  let MH := Math.max #0 (C - D) in
  let thetaDeg := if String.eqb angleMode "full" then B / #2 else B in
  let theta := toRadians thetaDeg in
  let r := MH * Math.tan theta in
  let A_touch := #2 * r in
  let A := s * A_touch in
  mkGeometry MH thetaDeg r A_touch A.

(** ** Unit formatting helper *)

(** The glyphs of the formatter, as UTF-8: U+2013, U+2032 and U+2033. *)
Definition en_dash : string := "–".
Definition prime : string := "′".
Definition double_prime : string := "″".

(** Conversion of a number to a string, as a template literal or a string
    concatenation does it.  The decimal digits are those of an integral
    value (in positional notation, which JavaScript uses below 10^21); the
    formatter converts integral values only, see
    [inchesToFeetIn_locals_fin]. *)
Definition ToString (n : number) : string :=
  match n with
  | NaN => "NaN"
  | PosInf => "Infinity"
  | NegInf => "-Infinity"
  | Fin x => NilZero.string_of_int (Z.to_int (Int_part x))
  end.

(** The local bindings of [inchesToFeetIn], past the [isFinite] test. *)
Record feetIn : Type := mkFeetIn {
  sign : number;
  feet : number;
  eighths : number;
  inchesWhole : number;
  frac : number;
  num : number
}.

Definition inchesToFeetIn_locals (inches : number) : feetIn :=
  let sign := if inches <? #0 then #(-1) else #1 in
  let inches := Math.abs inches in
  let feet := Math.floor (inches / #12) in
  let remIn := inches - feet * #12 in
  let eighths := Math.round (remIn * #8) / #8 in
  let remIn := eighths in
  let inchesWhole := Math.floor remIn in
  let frac := remIn - inchesWhole in
  let num := Math.round (frac * #8) in
  mkFeetIn sign feet eighths inchesWhole frac num.

(** [fracStr]: the replacement of the text 1/8 by itself leaves the string
    as it is. *)
Definition fracStr (l : feetIn) : string :=
  let den := #8 in
  if num l === #0 then ""%string
  else (ToString (num l) ++ "/" ++ ToString den)%string.

Definition inchesToFeetIn (inches : number) : string :=
  if negb (Num.isFinite inches) then en_dash
  else
    let l := inchesToFeetIn_locals inches in
    let fracStr := fracStr l in
    let inStr :=
      (ToString (inchesWhole l) ++
       (if String.eqb fracStr "" then "" else " " ++ fracStr))%string in
    let base := (ToString (feet l) ++ prime ++ "-" ++ inStr ++ double_prime)%string in
    if sign l <? #0 then ("-" ++ base)%string else base.

(** ** The component [BeamSpacingCalculator]

    One render of the component is a function of its five state cells. *)

(** The label of a dimension arrow: the numbers that its template literal
    prints with [toFixed]. *)
Inductive label : Type :=
| LabelA (A : number)
| LabelOverlap (overlap overlapPct : number).

(** The properties handed to [DimArrow]. *)
Record DimArrowProps : Type := mkDimArrow {
  x1 : number;
  x2 : number;
  y : number;
  dimLabel : label
}.

(** The elements of the SVG drawing. *)
#[warnings="-register-all"]
Inductive svg : Type :=
| line (x1 y1 x2 y2 : number)
| circle (cx cy : number)
| text (x y : number) (content : string)
| textMH (x y : number) (MH : number)
| DimArrow (props : DimArrowProps)
| g (children : list svg).

Section BeamSpacingCalculator.

(** The state: inputs in inches and degrees. *)
Variables C D B : number.
Variable angleMode : string.
Variable s : number.

(** Derived values (for UI). *)
Definition derived : geometry := computeAll C D B (Some angleMode) (Some s).

Definition overlap : number :=
  Math.max #0 (A_touch derived - A derived).

Definition overlapPct : number :=
  if A_touch derived >? #0 then (overlap / A_touch derived) * #100 else #0.

(** The advisory under the inputs is shown when [MH <= 0]. *)
Definition advisoryShown : bool := MH derived <=? #0.

(** Simple responsive SVG visual. *)
Definition svgWidth : number := #760.
Definition svgHeight : number := #360.
Definition margin_top : number := #24.
Definition margin_right : number := #24.
Definition margin_bottom : number := #24.
Definition margin_left : number := #24.

Definition MHpx : number := #240.
Definition yCeil : number := margin_top.
Definition yWork : number := margin_top + MHpx.

(** Horizontal scaling: fit A + 2r with some breathing room. *)
Definition totalWidthIn : number := Math.max #1 (A derived + #2 * r derived).
Definition drawableWidth : number := svgWidth - margin_left - margin_right.
Definition xScale : number := drawableWidth / (totalWidthIn * #1.1).

Definition center : number := margin_left + drawableWidth / #2.
Definition xLeft : number := center - (A derived / #2) * xScale.
Definition xRight : number := center + (A derived / #2) * xScale.

Definition beamFootLeftL : number := xLeft - r derived * xScale.
Definition beamFootLeftR : number := xLeft + r derived * xScale.
Definition beamFootRightL : number := xRight - r derived * xScale.
Definition beamFootRightR : number := xRight + r derived * xScale.

(** [{overlap > 0 && (<g><DimArrow .../></g>)}]: nothing is rendered when
    the condition is false. *)
Definition overlapIndicator : list svg :=
  if overlap >? #0 then
    [g [DimArrow (mkDimArrow beamFootLeftR beamFootRightL (yWork - #14)
                    (LabelOverlap overlap overlapPct))]]
  else [].

(** The children of the [<svg>] element, in document order. *)
Definition diagram : list svg :=
  [ line margin_left yCeil (svgWidth - margin_right) yCeil;
    text margin_left (yCeil - #8) "Ceiling";
    line margin_left yWork (svgWidth - margin_right) yWork;
    text margin_left (yWork + #14) "Work plane";
    circle xLeft yCeil;
    circle xRight yCeil;
    line xLeft yCeil beamFootLeftL yWork;
    line xLeft yCeil beamFootLeftR yWork;
    line xRight yCeil beamFootRightL yWork;
    line xRight yCeil beamFootRightR yWork;
    DimArrow (mkDimArrow xLeft xRight (yCeil + #24) (LabelA (A derived)));
    g [ line (svgWidth - margin_right - #32) yCeil
             (svgWidth - margin_right - #32) yWork;
        textMH (svgWidth - margin_right - #36) ((yCeil + yWork) / #2)
               (MH derived) ] ]
  ++ overlapIndicator
  ++ [ text xLeft (yCeil - #8) "Fixture";
       text xRight (yCeil - #8) "Fixture" ].

End BeamSpacingCalculator.

(** The same lines as functions of the object that [computeAll] returned:
    the overlap (lines 27 and 28) and the horizontal layout (lines 81 to 87)
    read its fields [r], [A_touch] and [A] only. *)
Definition overlapOf (res : geometry) : number :=
  Math.max #0 (A_touch res - A res).

Definition overlapPctOf (res : geometry) : number :=
  if A_touch res >? #0 then (overlapOf res / A_touch res) * #100 else #0.

Definition totalWidthInOf (res : geometry) : number :=
  Math.max #1 (A res + #2 * r res).

Definition xScaleOf (res : geometry) : number :=
  drawableWidth / (totalWidthInOf res * #1.1).

Definition xLeftOf (res : geometry) : number :=
  center - (A res / #2) * xScaleOf res.

Definition xRightOf (res : geometry) : number :=
  center + (A res / #2) * xScaleOf res.

(** ** Lightweight tests (console) *)

(** [nearly(a, b, tol = 0.03)] *)
Definition nearly (a b : number) (tol : option number) : bool :=
  let tol := match tol with Some t => t | None => #0.03 end in
  Math.abs (a - b) <=? tol.

(** The conditions of the three [console.assert] calls of the effect, in
    order: an assertion whose condition is [false] logs a failure. *)
Definition consoleAssertions : list bool :=
  let t1 := computeAll #108 #36 #30 (Some "full"%string) (Some #1) in
  let t2 := computeAll #108 #36 #30 (Some "full"%string) (Some #0.9) in
  let t3 := computeAll #108 #36 #15 (Some "half"%string) (Some #1) in
  [ nearly (A_touch t1) #38.585 (Some #0.05);
    nearly (A t2) #34.726 (Some #0.05);
    nearly (A_touch t3) (A_touch t1) (Some #0.01) ].

(** ** The state of the component and its event handlers *)

Module UI.

(** The five [useState] cells. *)
Record state : Type := mkState {
  C : number;
  D : number;
  B : number;
  angleMode : string;
  s : number
}.

Definition initial : state := mkState #108 #36 #30 "full" #0.9.

(** The events of the controls.  The payload of a change event is
    [Number(e.target.value)] for the number and range inputs and
    [e.target.value] for the select. *)
Inductive event : Type :=
| ClickReset
| ClickPresetNoOverlap
| ClickPresetTenPercent
| ClickPresetHalfAngle
| ChangeC (v : number)
| ChangeD (v : number)
| ChangeB (v : number)
| ChangeAngleMode (m : string)
| ChangeSRange (v : number)
| ChangeSNumber (v : number).

(** The [onClick] and [onChange] handlers. *)
Definition handle (e : event) (st : state) : state :=
  match e with
  | ClickReset => mkState #108 #36 #30 "full" #0.9
  | ClickPresetNoOverlap => mkState #108 #36 #30 "full" #1
  | ClickPresetTenPercent => mkState #108 #36 #30 "full" #0.9
  | ClickPresetHalfAngle => mkState #108 #36 #15 "half" #1
  | ChangeC v => mkState v (D st) (B st) (angleMode st) (s st)
  | ChangeD v => mkState (C st) v (B st) (angleMode st) (s st)
  | ChangeB v => mkState (C st) (D st) v (angleMode st) (s st)
  | ChangeAngleMode m => mkState (C st) (D st) (B st) m (s st)
  | ChangeSRange v => mkState (C st) (D st) (B st) (angleMode st) v
  | ChangeSNumber v =>
      mkState (C st) (D st) (B st) (angleMode st) (clamp v #0.6 #1.2)
  end.

(** The state after a sequence of events, the first event first. *)
Definition run (es : list event) (st : state) : state :=
  fold_left (fun st e => handle e st) es st.

(** What the controls can deliver.  A number input delivers a finite
    number (an empty or invalid field reads as 0); the range input delivers a
    number between its [min], 0.6, and its [max], 1.2. *)
Definition deliverable (e : event) : bool :=
  match e with
  | ChangeC v | ChangeD v | ChangeB v | ChangeSNumber v => Num.isFinite v
  | ChangeSRange v => Num.isFinite v && (#0.6 <=? v) && (v <=? #1.2)
  | _ => true
  end.

(** The state holds finite numbers and a spacing factor between 0.6 and
    1.2. *)
Definition ok (st : state) : bool :=
  Num.isFinite (C st) && Num.isFinite (D st) && Num.isFinite (B st) &&
  Num.isFinite (s st) && (#0.6 <=? s st) && (s st <=? #1.2).

End UI.

(** * Properties *)

(** ** Arithmetic of finite numbers *)

Section FiniteArithmetic.

Local Open Scope R_scope.

Lemma Rltb_true (x y : R) : Num.Rltb x y = true <-> x < y.
Proof.
  unfold Num.Rltb. destruct (Rlt_dec x y); split; intros; auto; discriminate.
Qed.

Lemma Rltb_false (x y : R) : Num.Rltb x y = false <-> y <= x.
Proof.
  unfold Num.Rltb. destruct (Rlt_dec x y); split; intros;
    auto; try discriminate; lra.
Qed.

Lemma Reqb_true (x y : R) : Num.Reqb x y = true <-> x = y.
Proof.
  unfold Num.Reqb. destruct (Req_dec_T x y); split; intros;
    auto; try discriminate; contradiction.
Qed.

Lemma Reqb_false (x y : R) : Num.Reqb x y = false <-> x <> y.
Proof.
  unfold Num.Reqb. destruct (Req_dec_T x y); split; intros;
    auto; try discriminate; contradiction.
Qed.

Lemma div_fin (x y : R) : y <> 0 -> (Fin x / Fin y)%js = Fin (x / y).
Proof.
  intros Hy. simpl. apply Reqb_false in Hy. now rewrite Hy.
Qed.

Lemma max_fin (x y : R) : Math.max (Fin x) (Fin y) = Fin (Rmax x y).
Proof.
  unfold Math.max, Num.lt, Num.Rltb, Rmax.
  destruct (Rlt_dec x y), (Rle_dec x y); try reflexivity; f_equal; lra.
Qed.

Lemma lt_fin (x y : R) : (Fin x <? Fin y)%js = true <-> x < y.
Proof. apply Rltb_true. Qed.

Lemma gt_fin (x y : R) : (Fin x >? Fin y)%js = true <-> y < x.
Proof. apply Rltb_true. Qed.

Lemma le_fin (x y : R) : (Fin x <=? Fin y)%js = true <-> x <= y.
Proof.
  unfold Num.le. simpl. rewrite orb_true_iff, Rltb_true, Reqb_true. lra.
Qed.

Lemma toRadians_fin (x : R) : toRadians (Fin x) = Fin (x * PI / 180).
Proof. unfold toRadians, Math.PI. simpl Num.mul. apply div_fin. lra. Qed.

End FiniteArithmetic.

(** Rewriting the arithmetic of finite numbers into real arithmetic. *)
Ltac fin_simpl :=
  repeat first
    [ rewrite toRadians_fin
    | rewrite max_fin
    | rewrite div_fin by lra
    | progress cbn [Num.add Num.sub Num.neg Num.mul Math.tan Math.abs
                    Math.floor Math.round Num.isFinite] ].

(** ** The geometry engine on real inputs *)

Section Geometry.

Local Open Scope R_scope.

(** [computeAll] in closed form. *)
Lemma computeAll_fin (c d b sf : R) (mode : string) :
  computeAll (Fin c) (Fin d) (Fin b) (Some mode) (Some (Fin sf)) =
  let mh := Rmax 0 (c - d) in
  let th := if String.eqb mode "full" then b / 2 else b in
  let rad := mh * tan (th * PI / 180) in
  mkGeometry (Fin mh) (Fin th) (Fin rad) (Fin (2 * rad)) (Fin (sf * (2 * rad))).
Proof.
  unfold computeAll.
  destruct (String.eqb mode "full"); fin_simpl;
    replace (c + - d) with (c - d) by lra; reflexivity.
Qed.

(** The touch spacing does not depend on the spacing factor. *)
Lemma A_touch_indep (C D B : number) (mode : option string)
    (s1 s2 : option number) :
  A_touch (computeAll C D B mode s1) = A_touch (computeAll C D B mode s2).
Proof. reflexivity. Qed.



(** A full beam angle of 90 degrees at a mounting height of 72 inches:
    the beams just meet at a spacing of 144 inches. *)
Example computeAll_90_full :
  computeAll #108 #36 #90 (Some "full"%string) (Some #1) =
  mkGeometry #72 #45 #72 #144 #144.
Proof.
  rewrite computeAll_fin. cbv zeta. cbn [String.eqb Ascii.eqb Bool.eqb].
  cbv iota. replace (90 / 2 * PI / 180) with (PI / 4) by field.
  rewrite tan_PI4, Rmax_right by lra.
  f_equal; f_equal; lra.
Qed.



(** Doubling and then halving a number gives the number back. *)
Lemma double_half (k : number) : ((#2 * k) / #2)%js = k.
Proof.
  assert (H2 : Num.sgn 2 = Gt).
  { unfold Num.sgn. destruct (Rlt_dec 2 0); [lra |].
    destruct (Rlt_dec 0 2); [reflexivity | lra]. }
  assert (Hlt : Num.Rltb 2 0 = false) by (apply Rltb_false; lra).
  destruct k as [| | | x]; cbn [Num.mul].
  - reflexivity.
  - rewrite H2. cbn. now rewrite Hlt.
  - rewrite H2. cbn. now rewrite Hlt.
  - rewrite div_fin by lra. f_equal. field.
Qed.

(** C4: a beam angle 2k in 'full' mode and a beam angle k in 'half' mode
    give the same touch spacing, for every ceiling height, work-plane
    height and k (here with no tolerance at all, and whatever the spacing
    factors). *)
Theorem half_full_equivalence (C D k : number) (sA sB : option number) :
  A_touch (computeAll C D (#2 * k)%js (Some "full"%string) sA) =
  A_touch (computeAll C D k (Some "half"%string) sB).
Proof.
  unfold computeAll. cbn [A_touch String.eqb Ascii.eqb Bool.eqb].
  cbv iota. now rewrite double_half.
Qed.

(** C10: every angle mode other than the string 'full' makes the beam
    angle itself the half-angle, and the whole result is the one of the
    mode 'half'. *)
Theorem unrecognised_mode_is_half (C D B : number) (mode : string)
    (s : option number) :
  mode <> "full"%string ->
  thetaDeg (computeAll C D B (Some mode) s) = B /\
  computeAll C D B (Some mode) s = computeAll C D B (Some "half"%string) s.
Proof.
  intros Hmode. apply String.eqb_neq in Hmode.
  unfold computeAll. rewrite Hmode. split; reflexivity.
Qed.

Lemma unrecognised_mode_is_half_witness :
  "quarter"%string <> "full"%string /\
  thetaDeg (computeAll #108 #36 #15 (Some "quarter"%string) (Some #1)) = #15.
Proof.
  assert (H : "quarter"%string <> "full"%string) by discriminate.
  split; [exact H |].
  apply (unrecognised_mode_is_half #108 #36 #15 "quarter" (Some #1) H).
Defined.

(** An absent angle mode is not a mode of its own: the default applies. *)
Lemma absent_mode_is_full (C D B : number) (s : option number) :
  computeAll C D B None s = computeAll C D B (Some "full"%string) s.
Proof. reflexivity. Qed.

(** A half-angle strictly between 0 and 90 degrees has a positive tangent. *)
Lemma tan_degrees_pos (th : R) : 0 < th < 90 -> 0 < tan (th * PI / 180).
Proof.
  intros Hth. pose proof PI_RGT_0 as Hpi.
  apply tan_gt_0; nra.
Qed.

(** The tangent of a half-angle of 135 degrees. *)
Lemma tan_135_degrees : tan (135 * PI / 180) = -1.
Proof.
  pose proof PI_RGT_0 as Hpi.
  replace (135 * PI / 180) with (PI - PI / 4) by field.
  rewrite Rtrigo_facts.tan_pi_minus, tan_PI4; [reflexivity |].
  apply Rgt_not_eq, cos_gt_0; lra.
Qed.

(** C5, as stated, fails.  With the work plane above the ceiling the
    mounting height is floored at 0 and the chosen spacing is 0 for every
    spacing factor; with a half-angle beyond 90 degrees the tangent and the
    touch spacing are negative, and the chosen spacing decreases as the
    spacing factor grows. *)
Lemma chosen_spacing_not_increasing :
  0 < 0.6 < 1.2 /\
  (A (computeAll #36 #108 #30 (Some "full"%string) (Some #0.6)) <?
   A (computeAll #36 #108 #30 (Some "full"%string) (Some #1.2)))%js = false /\
  (A (computeAll #108 #36 #135 (Some "half"%string) (Some #0.6)) <?
   A (computeAll #108 #36 #135 (Some "half"%string) (Some #1.2)))%js = false.
Proof.
  split; [lra |].
  rewrite !computeAll_fin. cbv zeta. cbn [A String.eqb Ascii.eqb Bool.eqb].
  cbv iota. rewrite tan_135_degrees. split.
  - rewrite Rmax_left by lra. apply Rltb_false. lra.
  - rewrite Rmax_right by lra. apply Rltb_false. lra.
Qed.

(** C5, amended: holding the heights, the beam angle and the angle mode
    fixed, with a touch spacing that is a number and not negative, the
    chosen spacing does not decrease as the spacing factor grows: for every
    0 < s1 < s2 the chosen spacing of s1 is that of s2 at most.  (It stays
    the same when the touch spacing is 0 or +Infinity.) *)
Theorem chosen_spacing_nondecreasing (C D B : number) (mode : option string)
    (s1 s2 : R) :
  0 < s1 < s2 ->
  (#0 <=? A_touch (computeAll C D B mode (Some (Fin s1))))%js = true ->
  (A (computeAll C D B mode (Some (Fin s1))) <=?
   A (computeAll C D B mode (Some (Fin s2))))%js = true.
Proof.
  intros Hs HT.
  change (A (computeAll C D B mode (Some (Fin s1)))) with
    (Fin s1 * A_touch (computeAll C D B mode (Some (Fin s1))))%js.
  change (A (computeAll C D B mode (Some (Fin s2)))) with
    (Fin s2 * A_touch (computeAll C D B mode (Some (Fin s1))))%js.
  destruct (A_touch (computeAll C D B mode (Some (Fin s1)))) as [| | | t].
  - discriminate.
  - cbn [Num.mul]. unfold Num.sgn.
    destruct (Rlt_dec s1 0); [lra |]. destruct (Rlt_dec s2 0); [lra |].
    destruct (Rlt_dec 0 s1); [| lra]. destruct (Rlt_dec 0 s2); [| lra].
    reflexivity.
  - discriminate.
  - apply le_fin in HT. cbn [Num.mul]. apply le_fin. nra.
Qed.

Lemma chosen_spacing_nondecreasing_witness :
  (A (computeAll #108 #36 #30 (Some "full"%string) (Some #0.9)) <=?
   A (computeAll #108 #36 #30 (Some "full"%string) (Some #1)))%js = true.
Proof.
  apply (chosen_spacing_nondecreasing #108 #36 #30 (Some "full"%string) 0.9 1).
  - lra.
  - rewrite computeAll_fin. cbv zeta. cbn [A_touch]. apply le_fin.
    assert (Ht : 0 < tan ((if String.eqb "full" "full" then 30 / 2 else 30)
                          * PI / 180))
      by (apply tan_degrees_pos; simpl; lra).
    rewrite Rmax_right by lra. nra.
Defined.

(** The derived values of the component are [overlapOf] and [overlapPctOf]
    of the object that [computeAll] returned. *)
Lemma overlap_of_derived (C D B s : number) (mode : string) :
  overlap C D B mode s = overlapOf (derived C D B mode s) /\
  overlapPct C D B mode s = overlapPctOf (derived C D B mode s).
Proof. split; reflexivity. Qed.

(** The overlap and its percentage for a finite touch spacing [t] and a
    finite chosen spacing [a]. *)
Lemma overlapOf_fin (res : geometry) (t a : R) :
  A_touch res = Fin t -> A res = Fin a ->
  overlapOf res = Fin (Rmax 0 (t - a)) /\
  overlapPctOf res = Fin (if Rlt_dec 0 t then Rmax 0 (t - a) / t * 100 else 0).
Proof.
  intros HT HA.
  assert (Ho : overlapOf res = Fin (Rmax 0 (t - a))).
  { unfold overlapOf. rewrite HT, HA. fin_simpl. reflexivity. }
  split; [exact Ho |].
  unfold overlapPctOf. rewrite Ho, HT.
  unfold Num.gt, Num.lt, Num.Rltb.
  destruct (Rlt_dec 0 t) as [Ht | Ht]; [| reflexivity].
  rewrite div_fin by lra. reflexivity.
Qed.

(** A part of a positive length, in percent. *)
Lemma percent_bounds (t sf : R) :
  0 < t -> 0 <= sf -> 0 <= Rmax 0 (t - sf * t) / t * 100 <= 100.
Proof.
  intros Ht Hsf.
  pose proof (Rmax_l 0 (t - sf * t)) as Hlo.
  assert (Hhi : Rmax 0 (t - sf * t) <= t) by (apply Rmax_lub; nra).
  assert (Hq : 0 <= Rmax 0 (t - sf * t) / t <= 1).
  { split.
    - apply Rmult_le_pos; [exact Hlo |]. left. now apply Rinv_0_lt_compat.
    - apply Rmult_le_reg_r with t; [exact Ht |].
      replace (Rmax 0 (t - sf * t) / t * t) with (Rmax 0 (t - sf * t))
        by (field; lra).
      lra. }
  lra.
Qed.

(** C6, as stated, fails.  At C = 1e308, D = 36, B = 170 ('full') and
    s = 0.9 the product of the mounting height and the tangent is beyond the
    doubles: [computeAll] returns the radius and both spacings as +Infinity
    (an overflow that the arithmetic of this embedding, exact on finite
    numbers, leaves out).  On that result the overlap is
    max(0, Infinity - Infinity) = NaN and so is the percentage: neither is
    a number that is 0 or more, and the percentage is not within 100. *)
Lemma overlap_not_a_number :
  let res := mkGeometry #1e308 #85 PosInf PosInf PosInf in
  overlapOf res = NaN /\ overlapPctOf res = NaN /\
  (#0 <=? overlapOf res)%js = false /\
  (#0 <=? overlapPctOf res)%js = false /\
  (overlapPctOf res <=? #100)%js = false.
Proof. cbv zeta. repeat split; reflexivity. Qed.

(** C6, amended: for every input tuple whose spacing factor is a finite
    number that is not negative and whose touch spacing comes out finite,
    the overlap is max(0, touchSpacing - chosenSpacing) and is not
    negative, and the overlap percentage is overlap / touchSpacing * 100
    when the touch spacing is positive and 0 otherwise, and lies in
    [0, 100]. *)
Theorem overlap_bounds_finite (C D B s : number) (mode : string) :
  let res := derived C D B mode s in
  let ov := overlap C D B mode s in
  let pct := overlapPct C D B mode s in
  Num.isFinite (A_touch res) = true ->
  Num.isFinite s = true ->
  (#0 <=? s)%js = true ->
  ov = Math.max #0 (A_touch res - A res)%js /\
  (#0 <=? ov)%js = true /\
  pct = (if (A_touch res >? #0)%js
         then (ov / A_touch res * #100)%js else #0) /\
  (#0 <=? pct)%js = true /\
  (pct <=? #100)%js = true.
Proof.
  intros res ov pct HT Hs Hs0.
  destruct (A_touch res) as [| | | t] eqn:Ht; try discriminate.
  destruct s as [| | | sf]; try discriminate.
  apply le_fin in Hs0.
  assert (HA : A res = Fin (sf * t)).
  { change (A res) with (Fin sf * A_touch res)%js. now rewrite Ht. }
  destruct (overlapOf_fin res t (sf * t) Ht HA) as [Ho Hp].
  change (overlapOf res) with ov in Ho. change (overlapPctOf res) with pct in Hp.
  assert (Hdef : pct = (if (A_touch res >? #0)%js
                        then (ov / A_touch res * #100)%js else #0))
    by reflexivity.
  rewrite Ht in Hdef.
  assert (Hov : ov = Math.max #0 (A_touch res - A res)%js) by reflexivity.
  rewrite Ht in Hov.
  split; [exact Hov |]. split; [| split; [exact Hdef |]].
  - rewrite Ho. apply le_fin. apply Rmax_l.
  - rewrite Hp.
    destruct (Rlt_dec 0 t) as [Hpos | Hneg].
    + pose proof (percent_bounds t sf Hpos Hs0). split; apply le_fin; lra.
    + split; apply le_fin; lra.
Qed.

Lemma overlap_bounds_finite_witness :
  (overlapPct #108 #36 #30 "full" #0.9 <=? #100)%js = true.
Proof.
  apply (overlap_bounds_finite #108 #36 #30 #0.9 "full").
  - unfold derived. rewrite computeAll_fin. reflexivity.
  - reflexivity.
  - apply le_fin. lra.
Defined.

(** The manual entry of the spacing factor is clamped: whatever real is
    typed, the state holds a factor between 0.6 and 1.2. *)
Lemma clamp_spacing_factor (v : R) :
  exists sf : R, clamp (Fin v) #0.6 #1.2 = Fin sf /\ 0.6 <= sf <= 1.2.
Proof.
  unfold clamp. rewrite max_fin.
  unfold Math.min, Num.lt, Num.Rltb.
  destruct (Rlt_dec 1.2 (Rmax v 0.6)) as [H | H];
    eexists; (split; [reflexivity |]).
  - lra.
  - pose proof (Rmax_r v 0.6). lra.
Qed.

End Geometry.

(** ** The unit formatter *)

Section Formatter.

Local Open Scope R_scope.

Lemma Int_part_eq (x : R) (z : Z) : IZR z <= x < IZR z + 1 -> Int_part x = z.
Proof. intros H. symmetry. apply Int_part_spec. lra. Qed.

Lemma Int_part_IZR (z : Z) : Int_part (IZR z) = z.
Proof. apply Int_part_eq. lra. Qed.

Lemma IZR_div8 (m : Z) :
  IZR m = 8 * IZR (m / 8) + IZR (m mod 8) /\ 0 <= IZR (m mod 8) <= 7.
Proof.
  pose proof (Z.div_mod m 8 ltac:(lia)) as Hm.
  pose proof (Z.mod_pos_bound m 8 ltac:(lia)) as Hb.
  split.
  - rewrite Hm at 1. rewrite plus_IZR, mult_IZR. reflexivity.
  - split; apply IZR_le; lia.
Qed.

Lemma Int_part_div8 (m : Z) : Int_part (IZR m / 8) = (m / 8)%Z.
Proof. destruct (IZR_div8 m) as [Hm Hb]. apply Int_part_eq. lra. Qed.

(** The local bindings of the formatter on a finite length: with [f] the
    whole feet and [m] the remaining inches in eighths, the whole inches are
    the quotient of [m] by 8 and the numerator is its remainder. *)
Lemma inchesToFeetIn_locals_fin (x : R) :
  let a := Rabs x in
  let f := Int_part (a / 12) in
  let m := Int_part ((a - IZR f * 12) * 8 + / 2) in
  inchesToFeetIn_locals (Fin x) =
  mkFeetIn (if Rlt_dec x 0 then #(-1) else #1) (Fin (IZR f))
           (Fin (IZR m / 8)) (Fin (IZR (m / 8)))
           (Fin (IZR (m mod 8) / 8)) (Fin (IZR (m mod 8))).
Proof.
  intros a f m. unfold inchesToFeetIn_locals. fin_simpl.
  fold a. fold f.
  change (a + - (IZR f * 12)) with (a - IZR f * 12). fold m.
  rewrite Int_part_div8.
  destruct (IZR_div8 m) as [Hm Hb].
  replace (IZR m / 8 + - IZR (m / 8)) with (IZR (m mod 8) / 8) by lra.
  replace (Int_part (IZR (m mod 8) / 8 * 8 + / 2)) with (m mod 8)%Z
    by (symmetry; apply Int_part_eq; lra).
  unfold Num.lt, Num.Rltb. destruct (Rlt_dec x 0); reflexivity.
Qed.

(** The remaining inches lie in [0, 12), so that their count in eighths
    lies between 0 and 96, both included. *)
Lemma eighths_range (x : R) :
  let a := Rabs x in
  let f := Int_part (a / 12) in
  let m := Int_part ((a - IZR f * 12) * 8 + / 2) in
  (0 <= f)%Z /\ 0 <= a - IZR f * 12 < 12 /\ (0 <= m <= 96)%Z.
Proof.
  intros a f m.
  pose proof (Rabs_pos x) as Ha. fold a in Ha.
  destruct (base_Int_part (a / 12)) as [Hf1 Hf2]. fold f in Hf1, Hf2.
  assert (Hrem : 0 <= a - IZR f * 12 < 12) by lra.
  destruct (base_Int_part ((a - IZR f * 12) * 8 + / 2)) as [Hm1 Hm2].
  fold m in Hm1, Hm2.
  assert (Hf : (-1 < f)%Z) by (apply lt_IZR; lra).
  assert (Hm : (-1 < m < 97)%Z) by (split; apply lt_IZR; lra).
  repeat split; try lia; lra.
Qed.

(** What the formatter renders: whole feet [floor(|inches| / 12)], the
    remaining inches rounded to the nearest eighth and split into whole
    inches and a numerator between 0 and 7; the whole inches lie between 0
    and 12, and 12 is reached exactly when the remaining inches are
    11 15/16 or more. *)
Lemma inchesToFeetIn_components (x : R) :
  let l := inchesToFeetIn_locals (Fin x) in
  feet l = Math.floor (Math.abs (Fin x) / #12)%js /\
  exists w k : Z,
    inchesWhole l = Fin (IZR w) /\ num l = Fin (IZR k) /\
    eighths l = Fin (IZR w + IZR k / 8) /\
    (0 <= w <= 12)%Z /\ (0 <= k <= 7)%Z /\
    (w = 12%Z <->
     11.9375 <= Rabs x - IZR (Int_part (Rabs x / 12)) * 12).
Proof.
  intros l. split; [reflexivity |].
  unfold l. rewrite inchesToFeetIn_locals_fin. cbv zeta.
  destruct (eighths_range x) as (Hf & Hrem & Hm). cbv zeta in Hf, Hrem, Hm.
  set (a := Rabs x) in *. set (f := Int_part (a / 12)) in *.
  set (m := Int_part ((a - IZR f * 12) * 8 + / 2)) in *.
  exists (m / 8)%Z, (m mod 8)%Z. cbn [inchesWhole num eighths].
  destruct (IZR_div8 m) as [Hm8 Hb].
  pose proof (Z.mod_pos_bound m 8 ltac:(lia)) as Hk.
  assert (Hw : (0 <= m / 8 <= 12)%Z).
  { split; [apply Z.div_pos; lia | apply Z.div_le_upper_bound; lia]. }
  repeat split; try lia.
  - f_equal. lra.
  - intros Hw12.
    assert (H96 : (96 <= m)%Z).
    { pose proof (Z.div_mod m 8 ltac:(lia)). lia. }
    apply IZR_le in H96.
    destruct (base_Int_part ((a - IZR f * 12) * 8 + / 2)) as [Hm1 _].
    fold m in Hm1. lra.
  - intros H. assert (Hm96 : m = 96%Z).
    { unfold m. apply Int_part_eq. lra. }
    rewrite Hm96. reflexivity.
Qed.

Lemma string_length_app (s1 s2 : string) :
  String.length (s1 ++ s2) = (String.length s1 + String.length s2)%nat.
Proof. induction s1 as [| ch s1 IH]; simpl; [reflexivity | now rewrite IH]. Qed.

(** A rendered length has at least the two glyphs and the dash between
    them. *)
Lemma inchesToFeetIn_fin_length (x : R) :
  (7 <= String.length (inchesToFeetIn (Fin x)))%nat.
Proof.
  unfold inchesToFeetIn. cbn [Num.isFinite negb].
  set (l := inchesToFeetIn_locals (Fin x)).
  destruct (sign l <? #0)%js;
    repeat (rewrite string_length_app || cbn [String.length prime double_prime]);
    lia.
Qed.

(** A length of 11 15/16 inches or more, and less than a foot, is rendered
    as no feet and twelve inches. *)
Lemma inchesToFeetIn_just_below_a_foot (x : R) :
  11.9375 <= x < 12 ->
  inchesToFeetIn_locals (Fin x) = mkFeetIn #1 #0 #(96 / 8) #12 #(0 / 8) #0 /\
  inchesToFeetIn (Fin x) = ("0" ++ prime ++ "-12" ++ double_prime)%string.
Proof.
  intros Hx.
  assert (Hl : inchesToFeetIn_locals (Fin x) =
               mkFeetIn #1 #0 #(96 / 8) #12 #(0 / 8) #0).
  { rewrite inchesToFeetIn_locals_fin. cbv zeta.
    rewrite (Rabs_pos_eq x) by lra.
    replace (Int_part (x / 12)) with 0%Z by (symmetry; apply Int_part_eq; lra).
    replace (Int_part ((x - 0 * 12) * 8 + / 2)) with 96%Z
      by (symmetry; apply Int_part_eq; lra).
    destruct (Rlt_dec x 0); [lra | reflexivity]. }
  split; [exact Hl |].
  unfold inchesToFeetIn, fracStr. cbn [Num.isFinite negb]. rewrite Hl.
  cbn [sign feet inchesWhole num Num.strict_eq Num.lt ToString].
  replace (Num.Reqb 0 0) with true by (symmetry; now apply Reqb_true).
  replace (Num.Rltb 1 0) with false by (symmetry; apply Rltb_false; lra).
  rewrite !Int_part_IZR. reflexivity.
Qed.

(** The touch spacing of the specification's first scenario, 38.585
    inches, is rendered as 3 feet 2 5/8 inches. *)
Example inchesToFeetIn_38_585 : inchesToFeetIn #38.585 = "3′-2 5/8″"%string.
Proof.
  unfold inchesToFeetIn, fracStr. cbn [Num.isFinite negb].
  rewrite inchesToFeetIn_locals_fin. cbv zeta.
  rewrite (Rabs_pos_eq 38.585) by lra.
  replace (Int_part (38.585 / 12)) with 3%Z
    by (symmetry; apply Int_part_eq; lra).
  replace (Int_part ((38.585 - 3 * 12) * 8 + / 2)) with 21%Z
    by (symmetry; apply Int_part_eq; lra).
  change (21 / 8)%Z with 2%Z. change (21 mod 8)%Z with 5%Z.
  cbn [sign feet inchesWhole num Num.strict_eq Num.lt ToString].
  replace (Num.Reqb 5 0) with false by (symmetry; apply Reqb_false; lra).
  destruct (Rlt_dec 38.585 0) as [Hn | _]; [lra |]. cbn [Num.lt].
  replace (Num.Rltb 1 0) with false by (symmetry; apply Rltb_false; lra).
  rewrite !Int_part_IZR. reflexivity.
Qed.

(** C3: the formatter does not carry twelve whole inches into the feet.
    At 11.96 inches the whole feet are 0, the remaining inches round to
    96 eighths, the whole-inch part is 12 with no fraction, and the rendered
    text is 0 feet 12 inches: the inch component is not below 12. *)
Theorem whole_inches_not_carried :
  let l := inchesToFeetIn_locals #11.96 in
  feet l = #0 /\ inchesWhole l = #12 /\ num l = #0 /\
  inchesToFeetIn #11.96 = "0′-12″"%string.
Proof.
  destruct (inchesToFeetIn_just_below_a_foot 11.96 ltac:(lra)) as [Hl Hs].
  cbv zeta. rewrite Hl, Hs. repeat split; reflexivity.
Qed.

(** C7: the formatter returns the en-dash placeholder on NaN, +Infinity
    and -Infinity, and on no finite number. *)
Theorem sentinel_iff_not_finite (n : number) :
  inchesToFeetIn n = en_dash <-> Num.isFinite n = false.
Proof.
  destruct n as [| | | x]; try (split; reflexivity).
  split; [| discriminate].
  intros H. pose proof (inchesToFeetIn_fin_length x) as Hlen.
  rewrite H in Hlen. cbn in Hlen. lia.
Qed.

End Formatter.

(** ** The diagram layout *)

Section Layout.

Local Open Scope R_scope.

(** The horizontal layout of the component is that of the object that
    [computeAll] returned. *)
Lemma layout_of_derived (C D B s : number) (mode : string) :
  xScale C D B mode s = xScaleOf (derived C D B mode s) /\
  xLeft C D B mode s = xLeftOf (derived C D B mode s) /\
  xRight C D B mode s = xRightOf (derived C D B mode s).
Proof. repeat split; reflexivity. Qed.

Lemma center_380 : center = #380.
Proof.
  unfold center, drawableWidth, svgWidth, margin_left, margin_right.
  fin_simpl. f_equal. lra.
Qed.

(** C8, as stated, fails.  On the result that [computeAll] returns at
    C = 1e308, D = 36, B = 170 ('full') and s = 0.9, where the radius and
    both spacings have overflowed to +Infinity, the total width is
    +Infinity, the scale is 0 and the offset of the fixtures is
    Infinity * 0 = NaN: both fixtures are at NaN and their midpoint is not
    the centre. *)
Lemma fixtures_lost_at_overflow :
  let res := mkGeometry #1e308 #85 PosInf PosInf PosInf in
  xScaleOf res = #0 /\ xLeftOf res = NaN /\ xRightOf res = NaN /\
  ((xLeftOf res + xRightOf res) / #2 === center)%js = false.
Proof.
  cbv zeta.
  assert (H2 : Num.sgn 2 = Gt).
  { unfold Num.sgn. destruct (Rlt_dec 2 0); [lra |].
    destruct (Rlt_dec 0 2); [reflexivity | lra]. }
  assert (H11 : Num.sgn 1.1 = Gt).
  { unfold Num.sgn. destruct (Rlt_dec 1.1 0); [lra |].
    destruct (Rlt_dec 0 1.1); [reflexivity | lra]. }
  assert (H0 : Num.sgn 0 = Eq).
  { unfold Num.sgn. destruct (Rlt_dec 0 0); [lra | reflexivity]. }
  assert (Hlt : Num.Rltb 2 0 = false) by (apply Rltb_false; lra).
  assert (Hx : xScaleOf (mkGeometry #1e308 #85 PosInf PosInf PosInf) = #0).
  { unfold xScaleOf, totalWidthInOf, drawableWidth, svgWidth, margin_left,
      margin_right. cbn [A r Num.mul Num.sub Num.neg Num.add].
    rewrite H2. cbn [Num.signed_inf Num.add Math.max Num.lt Num.mul].
    rewrite H11. reflexivity. }
  assert (Hh : (PosInf / #2 * #0)%js = NaN).
  { cbn [Num.div]. rewrite Hlt. cbn [Num.mul]. now rewrite H0. }
  assert (Hl : xLeftOf (mkGeometry #1e308 #85 PosInf PosInf PosInf) = NaN).
  { unfold xLeftOf. rewrite Hx, center_380. cbn [A]. now rewrite Hh. }
  assert (Hr : xRightOf (mkGeometry #1e308 #85 PosInf PosInf PosInf) = NaN).
  { unfold xRightOf. rewrite Hx, center_380. cbn [A]. now rewrite Hh. }
  rewrite Hl, Hr. repeat split; try assumption; reflexivity.
Qed.

(** C8, amended: for every spacing result the two fixtures are placed at
    the same offset, chosenSpacing / 2 * pixelsPerInch, to the left and to
    the right of the centre of the drawable area, which is the centre of
    the canvas, with pixelsPerInch =
    drawableWidth / (max(1, chosenSpacing + 2 * radius) * 1.1); when that
    offset is a number and not negative, the left fixture is at the centre
    or to its left and the right fixture at the centre or to its right. *)
Theorem fixtures_about_center (C D B s : number) (mode : string) :
  let res := derived C D B mode s in
  let pixelsPerInch := xScale C D B mode s in
  let offset := (A res / #2 * pixelsPerInch)%js in
  center = (svgWidth / #2)%js /\
  pixelsPerInch =
    (drawableWidth / (Math.max #1 (A res + #2 * r res) * #1.1))%js /\
  xLeft C D B mode s = (center - offset)%js /\
  xRight C D B mode s = (center + offset)%js /\
  ((#0 <=? offset)%js = true ->
   (xLeft C D B mode s <=? center)%js = true /\
   (center <=? xRight C D B mode s)%js = true).
Proof.
  intros res ppi offset.
  assert (Hl : xLeft C D B mode s = (center - offset)%js) by reflexivity.
  assert (Hr : xRight C D B mode s = (center + offset)%js) by reflexivity.
  split; [| split; [reflexivity | split; [exact Hl | split; [exact Hr |]]]].
  - rewrite center_380. unfold svgWidth. fin_simpl. f_equal. lra.
  - intros Ho. rewrite Hl, Hr, center_380.
    destruct offset as [| | | h]; try discriminate.
    + split; reflexivity.
    + apply le_fin in Ho. fin_simpl. split; apply le_fin; lra.
Qed.

(** The overlap is not positive when the touch spacing does not exceed the
    chosen spacing, non-finite values included. *)
Lemma no_overlap_when_apart (t a : number) :
  (t <=? a)%js = true -> (Math.max #0 (t - a) >? #0)%js = false.
Proof.
  assert (H00 : Num.Rltb 0 0 = false) by (apply Rltb_false; lra).
  destruct t as [| | | x], a as [| | | y];
    try (cbn; intros H; first [discriminate | reflexivity | exact H00]).
  intros H. apply le_fin in H.
  cbn [Num.sub Num.neg Num.add]. rewrite max_fin.
  apply Rltb_false. rewrite Rmax_left; lra.
Qed.

(** Where the overlap indicator can stand among the children of the
    drawing. *)
Lemma overlap_group_In (C D B s : number) (mode : string) (p : DimArrowProps) :
  In (g [DimArrow p]) (diagram C D B mode s) <->
  In (g [DimArrow p]) (overlapIndicator C D B mode s).
Proof.
  unfold diagram. split.
  - intros H. apply in_app_or in H. destruct H as [H | H].
    + cbn in H. repeat (destruct H as [H | H]; try discriminate). contradiction.
    + apply in_app_or in H. destruct H as [H | H]; [exact H |].
      cbn in H. repeat (destruct H as [H | H]; try discriminate). contradiction.
  - intros H. apply in_or_app. right. apply in_or_app. now left.
Qed.

(** C9: the overlap dimension annotation is in the drawing exactly when the
    overlap is positive; when it is there it runs from the right edge of the
    left beam's footprint to the left edge of the right beam's footprint;
    and it is left out when the beams do not touch as when they just touch
    (the touch spacing is at most the chosen spacing). *)
Theorem overlap_annotation_iff (C D B s : number) (mode : string) :
  let res := derived C D B mode s in
  ((exists p, In (g [DimArrow p]) (diagram C D B mode s)) <->
   (overlap C D B mode s >? #0)%js = true) /\
  (forall p, In (g [DimArrow p]) (diagram C D B mode s) ->
     x1 p = beamFootLeftR C D B mode s /\
     x2 p = beamFootRightL C D B mode s) /\
  ((A_touch res <=? A res)%js = true ->
   forall p, ~ In (g [DimArrow p]) (diagram C D B mode s)).
Proof.
  intros res.
  assert (Hoff : (overlap C D B mode s >? #0)%js = false ->
                 forall p, ~ In (g [DimArrow p]) (diagram C D B mode s)).
  { intros Hov p Hin. apply overlap_group_In in Hin.
    unfold overlapIndicator in Hin. rewrite Hov in Hin. exact Hin. }
  repeat split.
  - intros [p Hin]. destruct (overlap C D B mode s >? #0)%js eqn:Hov;
      [reflexivity | exfalso; exact (Hoff eq_refl p Hin)].
  - intros Hov. eexists. apply overlap_group_In.
    unfold overlapIndicator. rewrite Hov. left. reflexivity.
  - apply overlap_group_In in H. unfold overlapIndicator in H.
    destruct (overlap C D B mode s >? #0)%js; [| contradiction].
    destruct H as [H | []]. now inversion H.
  - apply overlap_group_In in H. unfold overlapIndicator in H.
    destruct (overlap C D B mode s >? #0)%js; [| contradiction].
    destruct H as [H | []]. now inversion H.
  - intros Hle. apply Hoff. unfold overlap. fold res.
    now apply no_overlap_when_apart.
Qed.

End Layout.

(** * Further properties of the code *)

(** ** The helpers [clamp] and [computeAll] *)

Section Helpers.

Local Open Scope R_scope.

Lemma min_fin (x y : R) : Math.min (Fin x) (Fin y) = Fin (Rmin x y).
Proof.
  unfold Math.min, Num.lt, Num.Rltb, Rmin.
  destruct (Rlt_dec y x), (Rle_dec x y); try reflexivity; f_equal; lra.
Qed.

Lemma clamp_fin (v lo hi : R) :
  clamp (Fin v) (Fin lo) (Fin hi) = Fin (Rmin (Rmax v lo) hi).
Proof. unfold clamp. now rewrite max_fin, min_fin. Qed.

(** X1: with bounds in order, [clamp] of a real lies between the bounds,
    is the value itself when the value lies between them, and is the bound
    on the side where the value falls outside. *)
Theorem clamp_in_range (v lo hi : R) :
  lo <= hi ->
  exists c : R,
    clamp (Fin v) (Fin lo) (Fin hi) = Fin c /\ lo <= c <= hi /\
    (lo <= v <= hi -> c = v) /\ (v < lo -> c = lo) /\ (hi < v -> c = hi).
Proof.
  intros Hb. exists (Rmin (Rmax v lo) hi). split; [apply clamp_fin |].
  unfold Rmin, Rmax.
  destruct (Rle_dec v lo); destruct (Rle_dec _ hi); repeat split; intros; lra.
Qed.

Lemma clamp_in_range_witness :
  0.6 <= 1.2 /\
  exists c : R, clamp #2 #0.6 #1.2 = Fin c /\ 0.6 <= c <= 1.2 /\
    (0.6 <= 2 <= 1.2 -> c = 2) /\ (2 < 0.6 -> c = 0.6) /\ (1.2 < 2 -> c = 1.2).
Proof.
  assert (H : 0.6 <= 1.2) by lra.
  split; [exact H |].
  apply (clamp_in_range 2 0.6 1.2 H).
Defined.

(** X2: [clamp] does not stop NaN, which comes out as NaN whatever the
    bounds; +Infinity comes out as the upper bound and -Infinity as the
    smaller of the two bounds. *)
Theorem clamp_not_finite (lo hi : R) :
  (forall a b : number, clamp NaN a b = NaN) /\
  clamp PosInf (Fin lo) (Fin hi) = Fin hi /\
  clamp NegInf (Fin lo) (Fin hi) = Fin (Rmin lo hi).
Proof.
  split; [| split].
  - intros a b. unfold clamp. destruct a, b; reflexivity.
  - reflexivity.
  - unfold clamp. cbn [Math.max Num.lt]. apply min_fin.
Qed.

(** X3: the mounting height is never negative: it is NaN when C - D is
    NaN (an operand is NaN, or both are the same infinity), and a number
    that is 0 or more otherwise. *)
Theorem mounting_height_not_negative (C D B : number) (mode : option string)
    (s : option number) :
  let res := computeAll C D B mode s in
  ((C - D)%js = NaN -> MH res = NaN) /\
  ((C - D)%js <> NaN -> (#0 <=? MH res)%js = true).
Proof.
  cbv zeta. cbn [computeAll MH]. split.
  - intros H. now rewrite H.
  - intros H. destruct (C - D)%js as [| | | x].
    + contradiction.
    + reflexivity.
    + cbn [Math.max Num.lt]. apply le_fin. lra.
    + rewrite max_fin. apply le_fin. apply Rmax_l.
Qed.

(** Multiplying by one changes no number. *)
Lemma mul_1_l (a : number) : (#1 * a)%js = a.
Proof.
  assert (H1 : Num.sgn 1 = Gt).
  { unfold Num.sgn. destruct (Rlt_dec 1 0); [lra |].
    destruct (Rlt_dec 0 1); [reflexivity | lra]. }
  destruct a as [| | | x]; cbn [Num.mul]; try reflexivity.
  - now rewrite H1.
  - now rewrite H1.
  - f_equal. ring.
Qed.

(** X4: with the spacing factor 1, and with the spacing factor left out
    (its default is 1), the chosen spacing is the touch spacing. *)
Theorem unit_factor_touches (C D B : number) (mode : option string) :
  A (computeAll C D B mode (Some #1)) = A_touch (computeAll C D B mode (Some #1)) /\
  A (computeAll C D B mode None) = A_touch (computeAll C D B mode None).
Proof. split; cbn [computeAll A A_touch]; apply mul_1_l. Qed.

(** X5: only the difference of the two heights matters: raising the
    ceiling and the work plane by the same amount changes nothing. *)
Theorem heights_shift_invariant (c d h : R) (B : number)
    (mode : option string) (s : option number) :
  computeAll (Fin (c + h)) (Fin (d + h)) B mode s =
  computeAll (Fin c) (Fin d) B mode s.
Proof.
  unfold computeAll. cbn [Num.sub Num.neg Num.add].
  replace (c + h + - (d + h)) with (c + - d) by ring. reflexivity.
Qed.

(** X6: a positive touch spacing needs the work plane below the ceiling:
    for all numbers, every mode and every spacing factor, if the touch
    spacing is greater than 0 then D < C. *)
Theorem positive_spacing_needs_height (C D B : number) (mode : option string)
    (s : option number) :
  (#0 <? A_touch (computeAll C D B mode s))%js = true -> (D <? C)%js = true.
Proof.
  cbn [computeAll A_touch].
  set (T := Math.tan _).
  assert (Hmul : forall m : R,
            (#0 <? #2 * (Fin m * T))%js = true -> m <> 0).
  { assert (H0 : Num.sgn 0 = Eq).
    { unfold Num.sgn. destruct (Rlt_dec 0 0); [lra | reflexivity]. }
    intros m H Hm. subst m. destruct T as [| | | y];
      cbn [Num.mul Num.lt] in H; rewrite ?H0 in H;
      cbn [Num.signed_inf CompOpp] in H; try discriminate.
    apply Rltb_true in H. lra. }
  destruct C as [| | | c], D as [| | | d];
    cbn [Num.sub Num.neg Num.add]; rewrite ?max_fin;
    cbn [Math.max Num.lt]; intros H;
    try reflexivity; try discriminate;
    try (exfalso; now apply (Hmul 0 H)).
  apply Hmul in H. apply Rltb_true.
  unfold Rmax in H. destruct (Rle_dec 0 (c + - d)); lra.
Qed.

Lemma positive_spacing_needs_height_witness : (#36 <? #108)%js = true.
Proof.
  apply (positive_spacing_needs_height #108 #36 #30 (Some "full"%string)
           (Some #0.9)).
  rewrite computeAll_fin. cbv zeta. cbn [A_touch]. apply lt_fin.
  assert (Ht : 0 < tan ((if String.eqb "full" "full" then 30 / 2 else 30)
                        * PI / 180))
    by (apply tan_degrees_pos; simpl; lra).
  rewrite Rmax_right by lra. nra.
Defined.

End Helpers.

(** ** The derived values of the component *)

Section Derived.

Local Open Scope R_scope.

Lemma mul_NaN_r (a : number) : (a * NaN)%js = NaN.
Proof. destruct a; reflexivity. Qed.

(** The tangent of the half-angle of a beam angle that is not finite. *)
Lemma tan_not_finite (B : number) (mode : string) :
  Num.isFinite B = false ->
  Math.tan (toRadians (if String.eqb mode "full" then B / #2 else B)%js) = NaN.
Proof.
  intros HB. pose proof PI_RGT_0 as Hpi.
  assert (Hs : Num.sgn PI = Gt).
  { unfold Num.sgn. destruct (Rlt_dec PI 0); [lra |].
    destruct (Rlt_dec 0 PI); [reflexivity | lra]. }
  assert (H2 : Num.Rltb 2 0 = false) by (apply Rltb_false; lra).
  assert (H180 : Num.Rltb 180 0 = false) by (apply Rltb_false; lra).
  unfold toRadians, Math.PI.
  destruct B as [| | | x]; [| | | discriminate];
    destruct (String.eqb mode "full"); cbn [Num.div Num.mul];
    rewrite ?H2; cbn [Num.mul]; rewrite ?Hs; cbn [Num.signed_inf CompOpp Num.div];
    rewrite ?H180; reflexivity.
Qed.

(** X7: a beam angle that is not finite (NaN or an infinity) makes the
    radius, the touch spacing and the chosen spacing NaN, whatever the other
    inputs; both spacings are then rendered as the en-dash, the overlap
    percentage is 0 and no overlap annotation is drawn. *)
Theorem angle_not_finite_blank (C D B s : number) (mode : string) :
  Num.isFinite B = false ->
  let res := derived C D B mode s in
  r res = NaN /\ A_touch res = NaN /\ A res = NaN /\
  inchesToFeetIn (A_touch res) = en_dash /\
  inchesToFeetIn (A res) = en_dash /\
  overlapPct C D B mode s = #0 /\
  overlapIndicator C D B mode s = [].
Proof.
  intros HB res.
  assert (Hr : r res = NaN).
  { unfold res, derived, computeAll. cbn [r].
    rewrite (tan_not_finite B mode HB). apply mul_NaN_r. }
  assert (Ht : A_touch res = NaN).
  { change (A_touch res) with (#2 * r res)%js. now rewrite Hr. }
  assert (Ha : A res = NaN).
  { change (A res) with (s * A_touch res)%js. rewrite Ht. apply mul_NaN_r. }
  assert (Ho : overlap C D B mode s = NaN).
  { unfold overlap. fold res. now rewrite Ht, Ha. }
  repeat split; try assumption.
  - now rewrite Ht.
  - now rewrite Ha.
  - unfold overlapPct. fold res. now rewrite Ht.
  - unfold overlapIndicator. now rewrite Ho.
Qed.

Lemma angle_not_finite_blank_witness :
  inchesToFeetIn (A (derived #108 #36 PosInf "half" #0.9)) = en_dash.
Proof.
  apply (angle_not_finite_blank #108 #36 PosInf #0.9 "half"). reflexivity.
Defined.

(** X9: on real heights the advisory under the inputs is shown exactly
    when the work plane is at or above the ceiling. *)
Theorem advisory_iff (c d : R) (B s : number) (mode : string) :
  advisoryShown (Fin c) (Fin d) B mode s = true <-> c <= d.
Proof.
  unfold advisoryShown, derived, computeAll. cbn [MH Num.sub Num.neg Num.add].
  rewrite max_fin, le_fin. unfold Rmax.
  destruct (Rle_dec 0 (c + - d)); split; intros; lra.
Qed.

End Derived.

(** ** The coordinates of the drawing *)

Section Coordinates.

Local Open Scope R_scope.

(** The coordinates for a finite chosen spacing [a] and a finite radius
    [rad], with [X] the horizontal scale. *)
Lemma coordinates_of (C D B s : number) (mode : string) (a rad : R) :
  A (derived C D B mode s) = Fin a ->
  r (derived C D B mode s) = Fin rad ->
  let X := 712 / (Rmax 1 (a + 2 * rad) * 1.1) in
  xLeft C D B mode s = Fin (380 - a / 2 * X) /\
  xRight C D B mode s = Fin (380 + a / 2 * X) /\
  beamFootLeftL C D B mode s = Fin (380 - a / 2 * X - rad * X) /\
  beamFootRightR C D B mode s = Fin (380 + a / 2 * X + rad * X) /\
  0 < X /\ Rmax 1 (a + 2 * rad) * X = 712 / 1.1.
Proof.
  intros HA Hr X.
  pose proof (Rmax_l 1 (a + 2 * rad)) as Hmax.
  assert (HX : xScale C D B mode s = Fin X).
  { unfold xScale, totalWidthIn, drawableWidth. rewrite HA, Hr.
    unfold svgWidth, margin_left, margin_right. fin_simpl.
    unfold X. f_equal. lra. }
  assert (Hl : xLeft C D B mode s = Fin (380 - a / 2 * X)).
  { unfold xLeft. rewrite HX, center_380, HA. fin_simpl. reflexivity. }
  assert (Hrt : xRight C D B mode s = Fin (380 + a / 2 * X)).
  { unfold xRight. rewrite HX, center_380, HA. fin_simpl. reflexivity. }
  unfold beamFootLeftL, beamFootRightR.
  rewrite HX, Hl, Hrt, Hr. fin_simpl.
  repeat split; try reflexivity.
  - unfold X. apply Rdiv_lt_0_compat; lra.
  - unfold X. field. lra.
Qed.

(** X10: the horizontal scale is never infinite and never negative: for
    all numbers it is NaN when chosenSpacing + 2 * radius is NaN, and
    otherwise a number between 0 and drawableWidth / 1.1, thanks to the
    floor of 1 inch on the total width. *)
Theorem xScale_bounded (C D B s : number) (mode : string) :
  let res := derived C D B mode s in
  let X := xScale C D B mode s in
  ((A res + #2 * r res)%js = NaN -> X = NaN) /\
  ((A res + #2 * r res)%js <> NaN ->
   (#0 <=? X)%js = true /\ (X <=? drawableWidth / #1.1)%js = true).
Proof.
  intros res X. unfold X, xScale, totalWidthIn. fold res.
  assert (H11 : Num.sgn 1.1 = Gt).
  { unfold Num.sgn. destruct (Rlt_dec 1.1 0); [lra |].
    destruct (Rlt_dec 0 1.1); [reflexivity | lra]. }
  assert (Hdw : drawableWidth = #712).
  { unfold drawableWidth, svgWidth, margin_left, margin_right.
    fin_simpl. f_equal. lra. }
  rewrite Hdw. rewrite (div_fin 712 1.1) by lra.
  split.
  - intros H. now rewrite H.
  - intros H. destruct (A res + #2 * r res)%js as [| | | v].
    + contradiction.
    + cbn [Math.max Num.lt Num.mul]. rewrite H11. cbn [Num.signed_inf Num.div].
      split; apply le_fin; lra.
    + cbn [Math.max Num.lt]. fin_simpl. rewrite Rmult_1_l.
      split; apply le_fin; lra.
    + rewrite max_fin. pose proof (Rmax_l 1 v) as Hm. fin_simpl.
      split; apply le_fin.
      * apply Rlt_le, Rdiv_lt_0_compat; lra.
      * apply Rmult_le_reg_r with (Rmax 1 v * 1.1); [lra |].
        replace (712 / (Rmax 1 v * 1.1) * (Rmax 1 v * 1.1)) with 712
          by (field; lra).
        replace (712 / 1.1 * (Rmax 1 v * 1.1)) with (712 * Rmax 1 v)
          by (field; lra).
        lra.
Qed.

(** X11: when the chosen spacing and the radius are finite and not
    negative, the drawing stays inside the margins: from left to right, the
    left margin, the left edge of the left beam, the left fixture, the right
    fixture, the right edge of the right beam and the right margin. *)
Theorem drawing_within_margins (C D B s : number) (mode : string) :
  let res := derived C D B mode s in
  Num.isFinite (A res) = true -> Num.isFinite (r res) = true ->
  (#0 <=? A res)%js = true -> (#0 <=? r res)%js = true ->
  (margin_left <=? beamFootLeftL C D B mode s)%js = true /\
  (beamFootLeftL C D B mode s <=? xLeft C D B mode s)%js = true /\
  (xLeft C D B mode s <=? xRight C D B mode s)%js = true /\
  (xRight C D B mode s <=? beamFootRightR C D B mode s)%js = true /\
  (beamFootRightR C D B mode s <=? svgWidth - margin_right)%js = true.
Proof.
  intros res HfA Hfr HA0 Hr0.
  destruct (A res) as [| | | a] eqn:HA; try discriminate.
  destruct (r res) as [| | | rad] eqn:Hr; try discriminate.
  apply le_fin in HA0, Hr0.
  destruct (coordinates_of C D B s mode a rad HA Hr)
    as (Hl & Hrt & Hll & Hrr & Hpos & Hprod).
  cbv zeta in *. rewrite Hl, Hrt, Hll, Hrr.
  set (M := Rmax 1 (a + 2 * rad)) in *. set (X := 712 / _) in *.
  pose proof (Rmax_r 1 (a + 2 * rad)) as HM. fold M in HM.
  assert (HaX : 0 <= a * X) by (apply Rmult_le_pos; lra).
  assert (HrX : 0 <= rad * X) by (apply Rmult_le_pos; lra).
  assert (Hw : (M - (a + 2 * rad)) * X >= 0) by nra.
  unfold margin_left, svgWidth, margin_right. fin_simpl.
  rewrite !le_fin. repeat split; nra.
Qed.

Lemma geometry_example_finite :
  exists a rad : R,
    A (derived #108 #36 #30 "full" #0.9) = Fin a /\
    r (derived #108 #36 #30 "full" #0.9) = Fin rad /\ 0 <= a /\ 0 <= rad.
Proof.
  unfold derived. rewrite computeAll_fin. cbv zeta. cbn [A r].
  assert (Ht : 0 < tan ((if String.eqb "full" "full" then 30 / 2 else 30)
                        * PI / 180))
    by (apply tan_degrees_pos; simpl; lra).
  do 2 eexists. repeat split; rewrite Rmax_right by lra; nra.
Qed.

Lemma drawing_within_margins_witness :
  (margin_left <=? beamFootLeftL #108 #36 #30 "full" #0.9)%js = true.
Proof.
  destruct geometry_example_finite as (a & rad & HA & Hr & Ha & Hrad).
  apply (drawing_within_margins #108 #36 #30 #0.9 "full").
  - now rewrite HA.
  - now rewrite Hr.
  - rewrite HA. now apply le_fin.
  - rewrite Hr. now apply le_fin.
Defined.

End Coordinates.

(** ** The console tests *)

Section ConsoleTests.

Local Open Scope R_scope.

Lemma abs_sub_sym (a b : number) : Math.abs (a - b) = Math.abs (b - a).
Proof.
  destruct a as [| | | x], b as [| | | y]; try reflexivity.
  cbn. f_equal. replace (y + - x) with (- (x + - y)) by ring.
  symmetry. apply Rabs_Ropp.
Qed.

(** X13: [nearly] does not depend on the order of the two values; it is
    false as soon as one of them is NaN, and for two equal infinities; a
    finite number is nearly itself at the default tolerance. *)
Theorem nearly_spec (a b : number) (tol : option number) :
  nearly a b tol = nearly b a tol /\
  nearly NaN b tol = false /\
  nearly a NaN tol = false /\
  nearly PosInf PosInf tol = false /\
  nearly NegInf NegInf tol = false /\
  (forall x : R, nearly (Fin x) (Fin x) None = true).
Proof.
  unfold nearly. repeat split; try reflexivity.
  - now rewrite abs_sub_sym.
  - destruct a; reflexivity.
  - intros x. cbn [Num.sub Num.neg Num.add Math.abs]. apply le_fin.
    replace (x + - x) with 0 by ring. rewrite Rabs_R0. lra.
Qed.

(** The tangent of 15 degrees. *)
Lemma tan_15_degrees : tan (15 * PI / 180) = 2 - sqrt 3.
Proof.
  pose proof PI_RGT_0 as Hpi.
  replace (15 * PI / 180) with (PI / 12) by field.
  assert (Hc : cos (PI / 12) <> 0) by (apply Rgt_not_eq, cos_gt_0; lra).
  assert (Hc2 : cos (2 * (PI / 12)) <> 0) by (apply Rgt_not_eq, cos_gt_0; lra).
  assert (Ht0 : 0 < tan (PI / 12)) by (apply tan_gt_0; lra).
  assert (Ht1 : tan (PI / 12) < 1).
  { rewrite <- tan_PI4. apply tan_increasing; lra. }
  assert (Hd : 1 - tan (PI / 12) * tan (PI / 12) <> 0) by nra.
  pose proof (tan_2a (PI / 12) Hc Hc2 Hd) as H2a.
  replace (2 * (PI / 12)) with (PI / 6) in H2a by field.
  rewrite tan_PI6 in H2a.
  assert (H3 : sqrt 3 * sqrt 3 = 3) by (apply sqrt_sqrt; lra).
  assert (Hs : 0 < sqrt 3) by (apply sqrt_lt_R0; lra).
  set (t := tan (PI / 12)) in *.
  assert (Heq : 1 - t * t = 2 * t * sqrt 3).
  { apply (f_equal (fun v => v * (sqrt 3 * (1 - t * t)))) in H2a.
    field_simplify in H2a; lra. }
  assert (Hprod : (t + sqrt 3 - 2) * (t + sqrt 3 + 2) = 0) by nra.
  apply Rmult_integral in Hprod. destruct Hprod; lra.
Qed.

Lemma sqrt_3_bounds : 1.732 < sqrt 3 < 1.7321.
Proof.
  assert (H3 : sqrt 3 * sqrt 3 = 3) by (apply sqrt_sqrt; lra).
  assert (Hs : 0 < sqrt 3) by (apply sqrt_lt_R0; lra).
  split; nra.
Qed.

(** X14: the three console assertions of the component hold: the touch
    spacing of the example is within 0.05 of 38.585, its chosen spacing at
    the factor 0.9 is within 0.05 of 34.726, and the half-angle 15 gives
    the touch spacing of the full angle 30 within 0.01. *)
Theorem console_assertions_hold : consoleAssertions = [true; true; true].
Proof.
  pose proof sqrt_3_bounds as Hs.
  unfold consoleAssertions. cbv zeta. rewrite !computeAll_fin. cbv zeta.
  cbn [A A_touch String.eqb Ascii.eqb Bool.eqb]. cbv iota.
  replace (30 / 2 * PI / 180) with (15 * PI / 180) by field.
  rewrite tan_15_degrees, Rmax_right by lra.
  unfold nearly. cbn [Num.sub Num.neg Num.add Math.abs].
  repeat (f_equal; try (apply le_fin; apply Rabs_le; lra)).
Qed.

End ConsoleTests.

(** ** More on the unit formatter *)

Section FormatterMore.

Local Open Scope R_scope.

(** X15: a negative length is rendered as its absolute value with a minus
    sign in front. *)
Theorem inchesToFeetIn_negative (x : R) :
  0 < x ->
  inchesToFeetIn (Fin (- x)) = ("-" ++ inchesToFeetIn (Fin x))%string.
Proof.
  intros Hx. unfold inchesToFeetIn, fracStr. cbn [Num.isFinite negb].
  rewrite !inchesToFeetIn_locals_fin. cbv zeta. rewrite Rabs_Ropp.
  destruct (Rlt_dec (- x) 0) as [_ | Hn]; [| lra].
  destruct (Rlt_dec x 0) as [Hn | _]; [lra |].
  cbn [sign feet inchesWhole num Num.lt].
  replace (Num.Rltb (-1) 0) with true by (symmetry; apply Rltb_true; lra).
  replace (Num.Rltb 1 0) with false by (symmetry; apply Rltb_false; lra).
  reflexivity.
Qed.

Lemma inchesToFeetIn_negative_witness :
  inchesToFeetIn (Fin (Ropp 38.585)) = ("-" ++ inchesToFeetIn (Fin 38.585))%string.
Proof. apply (inchesToFeetIn_negative 38.585). lra. Defined.

(** X16: for a length below 2^50 inches in absolute value (where a double
    still holds every eighth of an inch), the rendered feet, whole inches
    and eighths add up to a length within 1/16 inch of the absolute value of
    the input. *)
Theorem rendered_within_sixteenth (x : R) :
  Rabs x < 2 ^ 50 ->
  let l := inchesToFeetIn_locals (Fin x) in
  eighths l = (inchesWhole l + num l / #8)%js /\
  exists v : R,
    (feet l * #12 + eighths l)%js = Fin v /\ Rabs (v - Rabs x) <= 1 / 16.
Proof.
  intros _ l. unfold l. rewrite inchesToFeetIn_locals_fin. cbv zeta.
  set (a := Rabs x). set (f := Int_part (a / 12)).
  set (m := Int_part ((a - IZR f * 12) * 8 + / 2)).
  cbn [eighths inchesWhole num feet]. fin_simpl.
  destruct (IZR_div8 m) as [Hm8 _]. split.
  - f_equal. lra.
  - eexists. split; [reflexivity |].
    destruct (base_Int_part ((a - IZR f * 12) * 8 + / 2)) as [Hm1 Hm2].
    fold m in Hm1, Hm2. apply Rabs_le. lra.
Qed.

Lemma rendered_within_sixteenth_witness :
  eighths (inchesToFeetIn_locals #38.585) =
  (inchesWhole (inchesToFeetIn_locals #38.585) +
   num (inchesToFeetIn_locals #38.585) / #8)%js.
Proof.
  apply (rendered_within_sixteenth 38.585).
  rewrite Rabs_pos_eq; lra.
Defined.

(** X17: a length below 2^50 inches in absolute value that is a whole
    number of eighths of an inch is rendered exactly. *)
Theorem eighths_rendered_exactly (x : R) (n : Z) :
  Rabs x < 2 ^ 50 ->
  Rabs x = IZR n / 8 ->
  let l := inchesToFeetIn_locals (Fin x) in
  (feet l * #12 + eighths l)%js = Fin (Rabs x).
Proof.
  intros _ Hn l. unfold l. rewrite inchesToFeetIn_locals_fin. cbv zeta.
  set (a := Rabs x) in *. set (f := Int_part (a / 12)).
  cbn [eighths feet]. fin_simpl.
  replace (Int_part ((a - IZR f * 12) * 8 + / 2)) with (n - 96 * f)%Z.
  - f_equal. rewrite minus_IZR, mult_IZR. lra.
  - symmetry. apply Int_part_eq. rewrite minus_IZR, mult_IZR. lra.
Qed.

Lemma eighths_rendered_exactly_witness :
  (feet (inchesToFeetIn_locals #38.625) * #12 +
   eighths (inchesToFeetIn_locals #38.625))%js = Fin (Rabs 38.625).
Proof.
  apply (eighths_rendered_exactly 38.625 309); rewrite Rabs_pos_eq; lra.
Defined.

(** X18: a length of less than 1/16 inch in absolute value is rendered as
    0 feet 0 inches, and keeps its minus sign when it is negative. *)
Theorem inchesToFeetIn_tiny (x : R) :
  - (1 / 16) < x < 1 / 16 ->
  inchesToFeetIn (Fin x) =
  if Rlt_dec x 0 then "-0′-0″"%string else "0′-0″"%string.
Proof.
  intros Hx. unfold inchesToFeetIn, fracStr. cbn [Num.isFinite negb].
  rewrite inchesToFeetIn_locals_fin. cbv zeta.
  assert (Ha : 0 <= Rabs x < 1 / 16).
  { split; [apply Rabs_pos | apply Rabs_def1; lra]. }
  set (a := Rabs x) in *.
  replace (Int_part (a / 12)) with 0%Z by (symmetry; apply Int_part_eq; lra).
  replace (Int_part ((a - 0 * 12) * 8 + / 2)) with 0%Z
    by (symmetry; apply Int_part_eq; lra).
  change (0 / 8)%Z with 0%Z. change (0 mod 8)%Z with 0%Z.
  cbn [sign feet inchesWhole num Num.strict_eq ToString].
  replace (Num.Reqb 0 0) with true by (symmetry; now apply Reqb_true).
  rewrite !Int_part_IZR.
  destruct (Rlt_dec x 0); cbn [Num.lt].
  - replace (Num.Rltb (-1) 0) with true by (symmetry; apply Rltb_true; lra).
    reflexivity.
  - replace (Num.Rltb 1 0) with false by (symmetry; apply Rltb_false; lra).
    reflexivity.
Qed.

Lemma inchesToFeetIn_tiny_witness :
  inchesToFeetIn (Fin (- 0.01)) =
  if Rlt_dec (- 0.01) 0 then "-0′-0″"%string else "0′-0″"%string.
Proof. apply (inchesToFeetIn_tiny (- 0.01)). lra. Defined.

(** X19: the fraction is printed in eighths and is not reduced: with [k]
    the numerator, between 0 and 7, the text of the fraction is empty when
    [k] is 0 and is [k] followed by /8 otherwise. *)
Theorem fraction_in_eighths (x : R) :
  let l := inchesToFeetIn_locals (Fin x) in
  exists k : Z,
    (0 <= k <= 7)%Z /\ num l = Fin (IZR k) /\
    fracStr l =
    if (k =? 0)%Z then ""%string
    else (NilZero.string_of_int (Z.to_int k) ++ "/8")%string.
Proof.
  intros l. unfold l, fracStr. rewrite inchesToFeetIn_locals_fin. cbv zeta.
  set (f := Int_part (Rabs x / 12)).
  set (m := Int_part ((Rabs x - IZR f * 12) * 8 + / 2)). cbn [num].
  pose proof (Z.mod_pos_bound m 8 ltac:(lia)) as Hk.
  exists (m mod 8)%Z. split; [lia |]. split; [reflexivity |].
  cbn [Num.strict_eq ToString]. rewrite !Int_part_IZR.
  destruct (Z.eqb_spec (m mod 8) 0) as [H0 | H0].
  - rewrite H0. replace (Num.Reqb 0 0) with true
      by (symmetry; now apply Reqb_true). reflexivity.
  - replace (Num.Reqb (IZR (m mod 8)) 0) with false; [reflexivity |].
    symmetry. apply Reqb_false. intros H. apply eq_IZR in H. contradiction.
Qed.

(** X25: for a length below 2^50 inches in absolute value, the whole-inch
    part lies between 0 and 12, both included; it is 12 exactly when the
    inches left after the whole feet are 11 15/16 or more, and then no
    fraction is shown. *)
Theorem whole_inches_at_most_12 (x : R) :
  Rabs x < 2 ^ 50 ->
  let l := inchesToFeetIn_locals (Fin x) in
  (#0 <=? inchesWhole l)%js = true /\
  (inchesWhole l <=? #12)%js = true /\
  ((inchesWhole l === #12)%js = true <->
   11.9375 <= Rabs x - IZR (Int_part (Rabs x / 12)) * 12) /\
  ((inchesWhole l === #12)%js = true -> fracStr l = ""%string).
Proof.
  intros _ l. unfold l, fracStr. rewrite inchesToFeetIn_locals_fin. cbv zeta.
  destruct (eighths_range x) as (_ & Hrem & Hm). cbv zeta in Hrem, Hm.
  set (a := Rabs x) in *. set (f := Int_part (a / 12)) in *.
  set (m := Int_part ((a - IZR f * 12) * 8 + / 2)) in *.
  cbn [inchesWhole num Num.strict_eq]. rewrite !le_fin, !Reqb_true.
  pose proof (Z.div_mod m 8 ltac:(lia)) as Hdm.
  pose proof (Z.mod_pos_bound m 8 ltac:(lia)) as Hk.
  destruct (base_Int_part ((a - IZR f * 12) * 8 + / 2)) as [Hm1 _].
  fold m in Hm1.
  assert (Hiff : IZR (m / 8) = 12 <-> m = 96%Z).
  { split.
    - intros H. apply eq_IZR in H. lia.
    - intros ->. reflexivity. }
  repeat split.
  - apply (IZR_le 0). lia.
  - apply (IZR_le (m / 8) 12). lia.
  - intros H. apply Hiff in H. rewrite H in Hm1. lra.
  - intros H. apply Hiff. unfold m. apply Int_part_eq. lra.
  - intros H. apply Hiff in H. rewrite H. change (96 mod 8)%Z with 0%Z.
    replace (Num.Reqb 0 0) with true by (symmetry; now apply Reqb_true).
    reflexivity.
Qed.

Lemma whole_inches_at_most_12_witness :
  (inchesWhole (inchesToFeetIn_locals #11.96) <=? #12)%js = true.
Proof.
  apply (whole_inches_at_most_12 11.96).
  rewrite Rabs_pos_eq; lra.
Defined.

End FormatterMore.

(** ** The states of the component *)

Section States.

Local Open Scope R_scope.

Lemma isFinite_true (n : number) :
  Num.isFinite n = true -> exists x : R, n = Fin x.
Proof. destruct n; try discriminate. intros _. now eexists. Qed.

Lemma ok_spec (st : UI.state) :
  UI.ok st = true <->
  exists c d b sf : R,
    UI.C st = Fin c /\ UI.D st = Fin d /\ UI.B st = Fin b /\
    UI.s st = Fin sf /\ 0.6 <= sf <= 1.2.
Proof.
  unfold UI.ok. rewrite !andb_true_iff. split.
  - intros [[[[[HC HD] HB] Hs] Hlo] Hhi].
    apply isFinite_true in HC, HD, HB, Hs.
    destruct HC as [c HC], HD as [d HD], HB as [b HB], Hs as [sf Hs].
    rewrite Hs in Hlo, Hhi. apply le_fin in Hlo, Hhi.
    exists c, d, b, sf. repeat split; assumption || lra.
  - intros (c & d & b & sf & HC & HD & HB & Hs & Hsf).
    rewrite HC, HD, HB, Hs. repeat split; try reflexivity; apply le_fin; lra.
Qed.

(** Every handler keeps the state sound on an event that the controls can
    deliver. *)
Lemma handle_ok (e : UI.event) (st : UI.state) :
  UI.deliverable e = true -> UI.ok st = true -> UI.ok (UI.handle e st) = true.
Proof.
  intros He Hst. apply ok_spec in Hst.
  destruct Hst as (c & d & b & sf & HC & HD & HB & Hs & Hsf).
  apply ok_spec.
  destruct e as [| | | | v | v | v | m | v | v]; cbn [UI.handle UI.C UI.D UI.B UI.s];
    cbn [UI.deliverable] in He.
  - exists 108, 36, 30, 0.9. repeat split; lra.
  - exists 108, 36, 30, 1. repeat split; lra.
  - exists 108, 36, 30, 0.9. repeat split; lra.
  - exists 108, 36, 15, 1. repeat split; lra.
  - apply isFinite_true in He. destruct He as [x ->].
    exists x, d, b, sf. repeat split; assumption || lra.
  - apply isFinite_true in He. destruct He as [x ->].
    exists c, x, b, sf. repeat split; assumption || lra.
  - apply isFinite_true in He. destruct He as [x ->].
    exists c, d, x, sf. repeat split; assumption || lra.
  - exists c, d, b, sf. repeat split; assumption || lra.
  - rewrite !andb_true_iff in He. destruct He as [[Hf Hlo] Hhi].
    apply isFinite_true in Hf. destruct Hf as [x ->].
    apply le_fin in Hlo, Hhi.
    exists c, d, b, x. repeat split; assumption || lra.
  - apply isFinite_true in He. destruct He as [x ->].
    destruct (clamp_spacing_factor x) as (sf' & Hcl & Hsf').
    exists c, d, b, sf'. repeat split; assumption || lra.
Qed.

Lemma run_ok (es : list UI.event) (st : UI.state) :
  Forall (fun e => UI.deliverable e = true) es ->
  UI.ok st = true -> UI.ok (UI.run es st) = true.
Proof.
  revert st. induction es as [| e es IH]; intros st Hes Hst; [exact Hst |].
  inversion Hes as [| ? ? He Hes']; subst.
  cbn [UI.run fold_left]. apply IH; [exact Hes' |]. now apply handle_ok.
Qed.

(** X20: every state that the component reaches from its initial state,
    by clicks and by the changes that its controls can deliver, holds finite
    numbers and a spacing factor between 0.6 and 1.2; where the touch
    spacing of such a state is finite, the overlap percentage shown lies
    between 0 and 100. *)
Theorem reachable_state_sound (es : list UI.event) :
  Forall (fun e => UI.deliverable e = true) es ->
  let st := UI.run es UI.initial in
  let res := derived (UI.C st) (UI.D st) (UI.B st) (UI.angleMode st)
               (UI.s st) in
  let pct := overlapPct (UI.C st) (UI.D st) (UI.B st) (UI.angleMode st)
               (UI.s st) in
  UI.ok st = true /\
  (Num.isFinite (A_touch res) = true ->
   (#0 <=? pct)%js = true /\ (pct <=? #100)%js = true).
Proof.
  intros Hes st res pct.
  assert (Hinit : UI.ok UI.initial = true).
  { apply ok_spec. exists 108, 36, 30, 0.9. repeat split; lra. }
  pose proof (run_ok es UI.initial Hes Hinit) as Hok. fold st in Hok.
  split; [exact Hok |].
  apply ok_spec in Hok.
  destruct Hok as (c & d & b & sf & HC & HD & HB & Hs & Hsf).
  intros HT.
  destruct (A_touch res) as [| | | t] eqn:Ht; try discriminate.
  assert (HA : A res = Fin (sf * t)).
  { change (A res) with (UI.s st * A_touch res)%js. now rewrite Hs, Ht. }
  destruct (overlapOf_fin res t (sf * t) Ht HA) as [_ Hp].
  change (overlapPctOf res) with pct in Hp. rewrite Hp.
  destruct (Rlt_dec 0 t) as [Hpos | Hneg].
  - pose proof (percent_bounds t sf Hpos ltac:(lra)). split; apply le_fin; lra.
  - split; apply le_fin; lra.
Qed.

Lemma reachable_state_sound_witness :
  UI.ok (UI.run [UI.ChangeSNumber #5; UI.ChangeC #96; UI.ClickPresetHalfAngle]
                UI.initial) = true.
Proof.
  apply (reachable_state_sound
           [UI.ChangeSNumber #5; UI.ChangeC #96; UI.ClickPresetHalfAngle]).
  repeat constructor.
Defined.

End States.

(** ** More on the geometry *)

Section GeometryMore.

Local Open Scope R_scope.

(** X21: a beam angle of 0 gives a radius and spacings of 0, in either
    angle mode and for every finite spacing factor, as long as the mounting
    height is finite. *)
Theorem zero_angle_zero_spacing (C D : number) (sf : R) (mode : string) :
  let res := computeAll C D #0 (Some mode) (Some (Fin sf)) in
  Num.isFinite (MH res) = true ->
  r res = #0 /\ A_touch res = #0 /\ A res = #0.
Proof.
  intros res HM.
  assert (Ht : Math.tan (toRadians (thetaDeg res)) = #0).
  { unfold res. cbn [computeAll thetaDeg].
    destruct (String.eqb mode "full"); fin_simpl; f_equal.
    - replace (0 / 2 * PI / 180) with 0 by field. apply tan_0.
    - replace (0 * PI / 180) with 0 by field. apply tan_0. }
  assert (Hr : r res = #0).
  { change (r res) with (MH res * Math.tan (toRadians (thetaDeg res)))%js.
    rewrite Ht. destruct (MH res) as [| | | m]; try discriminate.
    cbn [Num.mul]. f_equal. ring. }
  assert (HT : A_touch res = #0).
  { change (A_touch res) with (#2 * r res)%js. rewrite Hr.
    cbn [Num.mul]. f_equal. ring. }
  repeat split; try assumption.
  change (A res) with (Fin sf * A_touch res)%js. rewrite HT.
  cbn [Num.mul]. f_equal. ring.
Qed.

Lemma zero_angle_zero_spacing_witness :
  A_touch (computeAll #108 #36 #0 (Some "half"%string) (Some #0.9)) = #0.
Proof.
  apply (zero_angle_zero_spacing #108 #36 0.9 "half").
  cbn [computeAll MH]. fin_simpl. reflexivity.
Defined.

End GeometryMore.
